(** * Negative mining for GPL: the miner of [02-negative-mining.ipynb]

    A shallow embedding of the three code cells that carry logic:
    - cell 10, [get_text]: the tab-separated pair parser;
    - cell 11: the passage dedup / batched upsert loop;
    - cell 13: the negative mining loop and the triplet file.

    Python [str] values are modelled as [string] (the UTF-8 bytes of the
    text); the bytes of tab and newline never occur inside a multi-byte
    sequence, so splitting and comparing bytes agrees with splitting and
    comparing code points. *)

From Stdlib Require Import List String Ascii Bool Arith ZArith Lia FinFun Permutation.
From Stdlib Require Import DecimalString DecimalNat Decimal.
Import ListNotations.

Local Open Scope string_scope.
Local Open Scope list_scope.

(** ** Python primitives used by the notebook *)

Module Py.

Definition TAB : ascii := "009"%char.
Definition NL : ascii := "010"%char.

(** [s.split(sep)] for a one-character separator: never empty, the empty
    string gives one empty field. *)
Fixpoint split (sep : ascii) (s : string) : list string :=
  match s with
  | EmptyString => [EmptyString]
  | String c s' =>
      if Ascii.eqb c sep then EmptyString :: split sep s'
      else match split sep s' with
           | [] => [String c EmptyString]
           | f :: fs => String c f :: fs
           end
  end.

(** [sep.join(l)] is [String.concat sep l]. *)
Definition join (sep : string) (l : list string) : string := String.concat sep l.

(** The character [c] occurs in [s]. *)
Fixpoint occurs (c : ascii) (s : string) : Prop :=
  match s with
  | EmptyString => False
  | String d s' => d = c \/ occurs c s'
  end.

(** [str(i)] for a non-negative [int]: decimal digits, ["0"] for zero. *)
Definition str (i : nat) : string := NilZero.string_of_uint (Nat.to_uint i).

(** The exceptions the modelled cells can raise. *)
Inductive exn : Type :=
  | ValueError
  | IndexError
  | RemoteError.

Inductive result (A : Type) : Type :=
  | Ok (a : A)
  | Raise (e : exn).
Arguments Ok {A} a.
Arguments Raise {A} e.

(** [int(s)] on an optional sign followed by decimal digits; anything else
    is a [ValueError].  (Python also accepts surrounding white space and
    underscores between digits; [str] never produces either.) *)
Definition digits (s : string) : result Z :=
  match s with
  | EmptyString => Raise ValueError
  | _ => match NilEmpty.uint_of_string s with
         | Some d => Ok (Z.of_nat (Nat.of_uint d))
         | None => Raise ValueError
         end
  end.

Definition int (s : string) : result Z :=
  match s with
  | String "+"%char s' => digits s'
  | String "-"%char s' =>
      match digits s' with
      | Ok z => Ok (- z)%Z
      | Raise e => Raise e
      end
  | _ => digits s
  end.

(** [l[z]]: negative indices count from the end, anything out of range is
    an [IndexError]. *)
Definition getitem {A : Type} (l : list A) (z : Z) : result A :=
  let n := Z.of_nat (List.length l) in
  let k := if (z <? 0)%Z then (z + n)%Z else z in
  if ((0 <=? k) && (k <? n))%Z%bool then
    match nth_error l (Z.to_nat k) with
    | Some a => Ok a
    | None => Raise IndexError
    end
  else Raise IndexError.

(** [l[i:j]] for [0 <= i]. *)
Definition slice {A : Type} (l : list A) (i j : nat) : list A :=
  firstn (j - i) (skipn i l).

(** [range(0, stop, step)] for a positive step, by counting the starts. *)
Fixpoint range_from (start step count : nat) : list nat :=
  match count with
  | O => []
  | S c => start :: range_from (start + step) step c
  end.

Definition range_step (stop step : nat) : list nat :=
  range_from 0 step ((stop + (step - 1)) / step).

End Py.

(** ** Cell 10: the parser *)

Definition Pair : Type := (string * string)%type.

(** The loop body of [get_text]: unpacking [line.split('\t')] into exactly
    two names, a [ValueError] otherwise. *)
Definition unpack2 (fields : list string) : Py.result Pair :=
  match fields with
  | [query; passage] => Py.Ok (query, passage)
  | _ => Py.Raise Py.ValueError
  end.

(** The generator drained into a list: one pair per line that unpacks, a
    line that raises is passed over. *)
Fixpoint get_text_lines (lines : list string) : list Pair :=
  match lines with
  | [] => []
  | line :: rest =>
      match unpack2 (Py.split Py.TAB line) with
      | Py.Ok pr => pr :: get_text_lines rest
      | Py.Raise _ => get_text_lines rest
      end
  end.

(** [text] is what [fp.read()] returns for [data/pairs.tsv]. *)
Definition get_text (text : string) : list Pair :=
  get_text_lines (Py.split Py.NL text).

(** The file system as the notebook sees it: the pairs file it reads and
    the triplets file it writes. *)
Record files : Type := mkFiles {
  pairs_tsv : string;
  triplets_tsv : option string
}.


(** A line is well formed when it splits into exactly two fields. *)
Definition well_formed (line : string) : bool :=
  Nat.eqb (List.length (Py.split Py.TAB line)) 2.

Definition pair_of_line (line : string) : Pair :=
  match Py.split Py.TAB line with
  | query :: passage :: _ => (query, passage)
  | _ => (EmptyString, EmptyString)
  end.

(** The fields of a parsed pair hold neither a tab nor a newline. *)
Definition clean (s : string) : Prop :=
  ~ Py.occurs Py.TAB s /\ ~ Py.occurs Py.NL s.

(** The number of occurrences of [c] in [s]. *)
Fixpoint count_char (c : ascii) (s : string) : nat :=
  match s with
  | EmptyString => 0
  | String d s' => (if Ascii.eqb d c then 1 else 0) + count_char c s'
  end.



(** ** Cells 3, 5 and 7: the settings *)

Module Config.

(** [os.environ]: the variables that are set, with their values. *)
Definition environ : Type := list (string * string).

(** [os.environ.get(key)]. *)
Fixpoint environ_get (env : environ) (key : string) : option string :=
  match env with
  | [] => None
  | (k, v) :: rest => if String.eqb k key then Some v else environ_get rest key
  end.

(** [x or d] for [x] a string or [None]: both [None] and the empty string
    are falsy. *)
Definition or_else (x : option string) (d : string) : string :=
  match x with
  | None => d
  | Some EmptyString => d
  | Some s => s
  end.

Definition api_key (env : environ) : string :=
  or_else (environ_get env "PINECONE_API_KEY") "PINECONE_API_KEY".

Definition cloud (env : environ) : string :=
  or_else (environ_get env "PINECONE_CLOUD") "aws".

Definition region (env : environ) : string :=
  or_else (environ_get env "PINECONE_REGION") "us-east-1".

(** [ServerlessSpec(cloud=cloud, region=region)]. *)
Record ServerlessSpec : Type := mkServerlessSpec {
  spec_cloud : string;
  spec_region : string
}.

Definition spec (env : environ) : ServerlessSpec :=
  mkServerlessSpec (cloud env) (region env).

Definition index_name : string := "negative-mining".

End Config.

(** ** Cell 11: passage dedup and batched upsert *)

Module Upsert.

Definition batch_size : nat := 64.

(** [passage in passage_batch]. *)
Definition contains (l : list string) (x : string) : bool :=
  existsb (String.eqb x) l.

(** One pass through the [if len(passage_batch) == batch_size] branch: the
    two parallel lists as they are when [model.encode(passage_batch)] and
    [index.upsert(vectors=list(zip(id_batch, embeds)))] are called. *)
Record flush : Type := mkFlush {
  flush_ids : list string;
  flush_passages : list string
}.

(** The (id, passage) records of one flush, position by position. *)
Definition records (f : flush) : list (string * string) :=
  combine (flush_ids f) (flush_passages f).

(** The argument of [index.upsert] for an encoder [encode]. *)
Definition upsert_vectors {vector : Type} (encode : list string -> list vector)
    (f : flush) : list (string * vector) :=
  combine (flush_ids f) (encode (flush_passages f)).

(** The variables of the cell; [upserts] is the sequence of flushes made so
    far.  The remote calls are taken to return: a failing one aborts the
    notebook, and nothing below it runs. *)
Record state : Type := mkState {
  pairs : list Pair;
  passage_batch : list string;
  id_batch : list string;
  upserts : list flush
}.

Definition init : state := mkState [] [] [] [].

(** The first [if] of the loop body: the pending lists after it. *)
Definition add_passage (i : nat) (passage : string) (st : state)
    : list string * list string :=
  if contains (passage_batch st) passage
  then (passage_batch st, id_batch st)
  else (passage_batch st ++ [passage], id_batch st ++ [Py.str i]).

(** The loop body for the [i]-th pair of the generator. *)
Definition step (i : nat) (pr : Pair) (st : state) : state :=
  let '(query, passage) := pr in
  let pairs' := pairs st ++ [(query, passage)] in
  let '(pb, ib) := add_passage i passage st in
  if Nat.eqb (List.length pb) batch_size
  then mkState pairs' [] [] (upserts st ++ [mkFlush ib pb])
  else mkState pairs' pb ib (upserts st).

(** [for i, (query, passage) in enumerate(pair_gen)], counting from [i]. *)
Fixpoint loop (i : nat) (pair_gen : list Pair) (st : state) : state :=
  match pair_gen with
  | [] => st
  | pr :: rest => loop (S i) rest (step i pr st)
  end.

Definition cell11 (pair_gen : list Pair) : state := loop 0 pair_gen init.

(** Every record sent to the encoder and the index, in order. *)
Definition sent (st : state) : list (string * string) :=
  flat_map records (upserts st).

(** Every record that was ever appended to the pending lists: the sent
    ones and those still pending. *)
Definition batched (st : state) : list (string * string) :=
  sent st ++ combine (id_batch st) (passage_batch st).

(** What the cell maintains between two iterations. *)
Record Inv (l : list Pair) (st : state) : Prop := mkInv {
  inv_pairs : pairs st = l;
  inv_parallel : List.length (id_batch st) = List.length (passage_batch st);
  inv_pending : List.length (passage_batch st) < batch_size;
  inv_flushes :
    Forall (fun f => List.length (flush_ids f) = batch_size /\
                     List.length (flush_passages f) = batch_size) (upserts st);
  inv_pending_nodup : NoDup (passage_batch st);
  inv_records :
    exists recs : list (nat * string),
      batched st = map (fun r => (Py.str (fst r), snd r)) recs /\
      Forall (fun r => exists q, nth_error l (fst r) = Some (q, snd r)) recs /\
      NoDup (map fst recs)
}.

(** The number of distinct passage texts of a pair list. *)
Definition distinct_passages (l : list Pair) : nat :=
  List.length (nodup string_dec (map snd l)).

(** A pair stream for the examples: [n] pairs with the passages
    [f 0 .. f (n-1)]. *)
Definition stream (f : nat -> string) (n : nat) : list Pair :=
  map (fun i => (("q" ++ Py.str i)%string, f i)) (seq 0 n).

Definition passage_n (i : nat) : string := ("p" ++ Py.str i)%string.

(** 128 pairs: the passages p0 .. p63, then p0 again, then p65 .. p127. *)
Definition repeat_after_flush : list Pair :=
  stream (fun i => if Nat.eqb i 64 then passage_n 0 else passage_n i) 128.

End Upsert.

(** ** Cell 13: the mining pass *)

Module Mining.

Import Py.

Definition batch_size : nat := 100.
Definition top_k : nat := 10.

(** A match of the index answer; the miner reads its ['id'] only. *)
Record hit : Type := mkHit { hit_id : string }.

(** One entry of [res['results']]. *)
Record query_res : Type := mkQueryRes { matches : list hit }.

(** The triplet line [query+'\t'+pos_passage+'\t'+neg_passage]. *)
Definition triplet (query pos_passage neg_passage : string) : string :=
  (query ++ String TAB EmptyString ++ pos_passage
         ++ String TAB EmptyString ++ neg_passage)%string.

(** [pairs[int(hit['id'])][1]]. *)
Definition neg_passage_of (pairs : list Pair) (h : hit) : result string :=
  match int (hit_id h) with
  | Raise e => Raise e
  | Ok z =>
      match getitem pairs z with
      | Raise e => Raise e
      | Ok pr => Ok (snd pr)
      end
  end.

(** [for hit in top_results]: the value of [triplets] after the loop. *)
Fixpoint find_negative (pairs : list Pair) (query pos_passage : string)
    (top_results : list hit) (triplets : list string)
    : result (list string) :=
  match top_results with
  | [] => Ok triplets
  | h :: rest =>
      match neg_passage_of pairs h with
      | Raise e => Raise e
      | Ok neg_passage =>
          if String.eqb neg_passage pos_passage
          then find_negative pairs query pos_passage rest triplets
          else Ok (triplets ++ [triplet query pos_passage neg_passage])
      end
  end.

Section Run.

(** The encoder, the index and the random generator are outside the
    notebook: [world] is whatever state they have, each call may change
    it, and the remote ones may fail. *)
Context {world vector : Type}.
Variable encode : list string -> world -> result (list vector * world).
Variable index_query : list vector -> nat -> world
                       -> result (list query_res * world).
Variable shuffle : list hit -> world -> list hit * world.

Definition M (A : Type) : Type := world -> result (A * world).

Definition ret {A : Type} (a : A) : M A := fun w => Ok (a, w).

Definition bind {A B : Type} (m : M A) (k : A -> M B) : M B :=
  fun w => match m w with
           | Ok (a, w') => k a w'
           | Raise e => Raise e
           end.

Definition lift {A : Type} (r : result A) : M A :=
  fun w => match r with
           | Ok a => Ok (a, w)
           | Raise e => Raise e
           end.

Definition total {A : Type} (f : world -> A * world) : M A :=
  fun w => Ok (f w).

Notation "x <- m ;; k" := (bind m (fun x => k))
  (at level 61, m at next level, right associativity).

(** The body of the [for ... in zip(...)] loop for one query. *)
Definition mine_query (pairs : list Pair) (query pos_passage : string)
    (qr : query_res) (triplets : list string) : M (list string) :=
  top_results <- total (shuffle (matches qr)) ;;
  lift (find_negative pairs query pos_passage top_results triplets).

(** [for query, pos_passage, query_res in zip(queries, pos_passages,
    res['results'])]. *)
Fixpoint mine_rows (pairs : list Pair)
    (rows : list ((string * string) * query_res)) (triplets : list string)
    : M (list string) :=
  match rows with
  | [] => ret triplets
  | ((query, pos_passage), qr) :: rest =>
      triplets' <- mine_query pairs query pos_passage qr triplets ;;
      mine_rows pairs rest triplets'
  end.

(** The body of the outer loop for the batch that starts at [i]. *)
Definition mine_batch (pairs : list Pair) (i : nat) (triplets : list string)
    : M (list string) :=
  let i_end := Nat.min (i + batch_size) (List.length pairs) in
  let queries := map fst (slice pairs i i_end) in
  let pos_passages := map snd (slice pairs i i_end) in
  query_embs <- encode queries ;;
  res <- index_query query_embs top_k ;;
  mine_rows pairs (combine (combine queries pos_passages) res) triplets.

Fixpoint mine_batches (pairs : list Pair) (starts : list nat)
    (triplets : list string) : M (list string) :=
  match starts with
  | [] => ret triplets
  | i :: rest =>
      triplets' <- mine_batch pairs i triplets ;;
      mine_batches pairs rest triplets'
  end.

(** [for i in range(0, len(pairs), batch_size)], from [triplets = []]. *)
Definition mining (pairs : list Pair) : M (list string) :=
  mine_batches pairs (range_step (List.length pairs) batch_size) [].

(** The text written to [data/triplets.tsv]. *)
Definition triplets_text (triplets : list string) : string :=
  join (String NL EmptyString) triplets.

(** The whole cell: mine, then write the file. *)
Definition cell13 (pairs : list Pair) (fs : files) : M files :=
  triplets <- mining pairs ;;
  ret (mkFiles (pairs_tsv fs) (Some (triplets_text triplets))).

End Run.

(** The batches the outer loop cuts [pairs] into. *)
Definition batches (pairs : list Pair) : list (list Pair) :=
  map (fun i => slice pairs i (Nat.min (i + batch_size) (List.length pairs)))
      (range_step (List.length pairs) batch_size).

(** What one processed query contributed: the negative it got, if any. *)
Definition line_of (pr : Pair) (o : option string) : list string :=
  match o with
  | Some neg_passage => [triplet (fst pr) (snd pr) neg_passage]
  | None => []
  end.

Definition lines_of (rows : list (Pair * option string)) : list string :=
  flat_map (fun r => line_of (fst r) (snd r)) rows.

(** An outcome is sound for its pair when the negative, if there is one,
    is a passage of [pairs] other than the positive. *)
Definition sound (pairs : list Pair) (r : Pair * option string) : Prop :=
  match snd r with
  | Some neg_passage =>
      neg_passage <> snd (fst r) /\ In neg_passage (map snd pairs)
  | None => True
  end.

(** A line the pass may emit for [pairs]: a query with its positive and a
    passage of the pool other than the positive. *)
Definition emitted (pairs : list Pair) (t : string) : Prop :=
  exists query pos_passage neg_passage : string,
    In (query, pos_passage) pairs /\
    In neg_passage (map snd pairs) /\
    neg_passage <> pos_passage /\
    t = triplet query pos_passage neg_passage.

(** Stand-ins for the collaborators, for the examples: the encoder gives
    the length of each text, the index answers every query with the same
    ids, and the shuffle reverses. *)
Definition demo_encode (texts : list string) (w : unit)
    : result (list nat * unit) :=
  Ok (map String.length texts, w).

Definition demo_index_query (ids : list string) (vectors : list nat)
    (k : nat) (w : unit) : result (list query_res * unit) :=
  Ok (map (fun _ => mkQueryRes (firstn k (map mkHit ids))) vectors, w).

Definition demo_shuffle (l : list hit) (w : unit) : list hit * unit :=
  (List.rev l, w).

Definition demo_pairs : list Pair :=
  [("what is a cat", "A cat is a small mammal.");
   ("what is a dog", "A dog is a domesticated canine.")].

End Mining.

(** * Properties *)

(** ** Splitting and joining *)

Module PyFacts.

Import Py.

Lemma split_not_nil (sep : ascii) (s : string) : split sep s <> [].
Proof.
  destruct s as [|c s]; simpl; [discriminate|].
  destruct (Ascii.eqb c sep); [discriminate|].
  destruct (split sep s); discriminate.
Qed.

(** A character absent from a string is absent from all of its fields,
    and the separator is absent from every field. *)
Lemma split_absent (sep d : ascii) (s : string) :
  ~ occurs d s -> Forall (fun f => ~ occurs d f) (split sep s).
Proof.
  induction s as [|c s IH]; intros Hd; simpl.
  - constructor; [exact Hd | constructor].
  - simpl in Hd.
    assert (Hs : ~ occurs d s) by tauto.
    assert (Hc : c <> d) by tauto.
    specialize (IH Hs).
    destruct (Ascii.eqb c sep).
    + constructor; [simpl; tauto | exact IH].
    + destruct (split sep s) as [|f fs].
      * constructor; [simpl; tauto | constructor].
      * inversion IH; subst. constructor; [simpl; tauto | assumption].
Qed.

Lemma split_fields_no_sep (sep : ascii) (s : string) :
  Forall (fun f => ~ occurs sep f) (split sep s).
Proof.
  induction s as [|c s IH]; simpl.
  - constructor; [simpl; tauto | constructor].
  - destruct (Ascii.eqb c sep) eqn:E.
    + constructor; [simpl; tauto | exact IH].
    + apply Ascii.eqb_neq in E.
      destruct (split sep s) as [|f fs].
      * constructor; [simpl; tauto | constructor].
      * inversion IH; subst. constructor; [simpl; tauto | assumption].
Qed.




Lemma join_split (sep : ascii) (s : string) :
  join (String sep EmptyString) (split sep s) = s.
Proof.
  induction s as [|c s IH]; [reflexivity|].
  simpl. destruct (Ascii.eqb c sep) eqn:E.
  - apply Ascii.eqb_eq in E. subst c.
    destruct (split sep s) as [|f fs] eqn:Es.
    + exfalso. exact (split_not_nil sep s Es).
    + change (join (String sep EmptyString) (EmptyString :: f :: fs))
        with (String sep (join (String sep EmptyString) (f :: fs))).
      rewrite IH. reflexivity.
  - destruct (split sep s) as [|f fs] eqn:Es.
    + exfalso. exact (split_not_nil sep s Es).
    + rewrite <- IH. destruct fs; reflexivity.
Qed.


(** ** Decimal strings *)

Lemma to_uint_not_nil (i : nat) : Nat.to_uint i <> Nil.
Proof.
  intros H.
  assert (E : i = 0).
  { rewrite <- (DecimalNat.Unsigned.of_to i), H. reflexivity. }
  subst i. discriminate H.
Qed.

Lemma str_digits (i : nat) : digits (str i) = Ok (Z.of_nat i).
Proof.
  unfold digits, str.
  pose proof (to_uint_not_nil i) as Hn.
  pose proof (NilZero.usu _ Hn) as Hu.
  destruct (NilZero.string_of_uint (Nat.to_uint i)) as [|c s] eqn:E.
  - discriminate Hu.
  - change (NilEmpty.uint_of_string (String c s) = Some (Nat.to_uint i)) in Hu.
    cbv beta iota. rewrite Hu.
    rewrite DecimalNat.Unsigned.of_to. reflexivity.
Qed.

Lemma str_no_sign (i : nat) : int (str i) = digits (str i).
Proof.
  unfold str. destruct (Nat.to_uint i); reflexivity.
Qed.

Lemma int_str (i : nat) : int (str i) = Ok (Z.of_nat i).
Proof. rewrite str_no_sign. apply str_digits. Qed.

Lemma str_inj (i j : nat) : str i = str j -> i = j.
Proof.
  intros H.
  pose proof (int_str i) as Hi. rewrite H, int_str in Hi.
  inversion Hi. lia.
Qed.

(** ** Indexing and slicing *)

Lemma getitem_nat {A : Type} (l : list A) (i : nat) (a : A) :
  nth_error l i = Some a -> getitem l (Z.of_nat i) = Ok a.
Proof.
  intros H. unfold getitem.
  assert (Hlt : i < List.length l) by (apply nth_error_Some; congruence).
  destruct (Z.ltb_spec (Z.of_nat i) 0); [lia|].
  destruct (Z.leb_spec 0 (Z.of_nat i)); [|lia].
  destruct (Z.ltb_spec (Z.of_nat i) (Z.of_nat (List.length l))); [|lia].
  simpl. rewrite Nat2Z.id, H. reflexivity.
Qed.

Lemma getitem_In {A : Type} (l : list A) (z : Z) (a : A) :
  getitem l z = Ok a -> In a l.
Proof.
  unfold getitem. intros H.
  destruct (_ && _)%bool; [|discriminate].
  destruct (nth_error l _) eqn:E; [|discriminate].
  inversion H; subst. eapply nth_error_In; eassumption.
Qed.

Lemma firstn_add {A : Type} (n m : nat) (l : list A) :
  firstn (n + m) l = firstn n l ++ firstn m (skipn n l).
Proof.
  revert l. induction n as [|n IH]; intros l; [reflexivity|].
  destruct l as [|a l]; simpl.
  - rewrite firstn_nil. reflexivity.
  - rewrite IH. reflexivity.
Qed.

Lemma slice_firstn {A : Type} (l : list A) (i n : nat) :
  0 < n ->
  slice l i (Nat.min (i + n) (List.length l)) = firstn n (skipn i l).
Proof.
  intros Hn. unfold slice.
  destruct (Nat.le_gt_cases (i + n) (List.length l)) as [H|H].
  - rewrite Nat.min_l by exact H. f_equal. lia.
  - rewrite Nat.min_r by lia.
    rewrite !firstn_all2; [reflexivity | |]; rewrite length_skipn; lia.
Qed.

Lemma combine_app {A B : Type} (l1 l2 : list A) (m1 m2 : list B) :
  List.length l1 = List.length m1 ->
  combine (l1 ++ l2) (m1 ++ m2) = combine l1 m1 ++ combine l2 m2.
Proof.
  revert m1. induction l1 as [|a l1 IH]; intros [|b m1] H; simpl in *;
    try discriminate; [reflexivity|].
  rewrite IH by lia. reflexivity.
Qed.

Lemma combine_fst_snd {A B : Type} (l : list (A * B)) :
  combine (map fst l) (map snd l) = l.
Proof.
  induction l as [|[a b] l IH]; simpl; [reflexivity|]. rewrite IH. reflexivity.
Qed.

End PyFacts.

(** ** The parser *)

Lemma unpack2_well_formed (line : string) :
  unpack2 (Py.split Py.TAB line) =
  if well_formed line then Py.Ok (pair_of_line line) else Py.Raise Py.ValueError.
Proof.
  unfold well_formed, pair_of_line, unpack2.
  destruct (Py.split Py.TAB line) as [|a [|b [|c l]]]; reflexivity.
Qed.

Lemma get_text_lines_filter (lines : list string) :
  get_text_lines lines = map pair_of_line (filter well_formed lines).
Proof.
  induction lines as [|line rest IH]; [reflexivity|].
  simpl. rewrite unpack2_well_formed.
  destruct (well_formed line); simpl; rewrite IH; reflexivity.
Qed.

Lemma well_formed_line (line : string) :
  well_formed line = true ->
  line = (fst (pair_of_line line) ++ String Py.TAB (snd (pair_of_line line)))%string.
Proof.
  unfold well_formed, pair_of_line. intros H.
  pose proof (PyFacts.join_split Py.TAB line) as J.
  destruct (Py.split Py.TAB line) as [|a [|b [|c l]]]; try discriminate.
  simpl. symmetry. exact J.
Qed.

Lemma pair_of_line_clean (line : string) :
  ~ Py.occurs Py.NL line ->
  well_formed line = true ->
  clean (fst (pair_of_line line)) /\ clean (snd (pair_of_line line)).
Proof.
  unfold well_formed, pair_of_line, clean. intros Hnl H.
  pose proof (PyFacts.split_fields_no_sep Py.TAB line) as Ht.
  pose proof (PyFacts.split_absent Py.TAB Py.NL line Hnl) as Hn.
  destruct (Py.split Py.TAB line) as [|a [|b [|c l]]]; try discriminate.
  inversion Ht as [|? ? Ha Ht']; subst. inversion Ht'; subst.
  inversion Hn as [|? ? Ha' Hn']; subst. inversion Hn'; subst.
  simpl. tauto.
Qed.

Lemma get_text_clean (text : string) :
  Forall (fun pr => clean (fst pr) /\ clean (snd pr)) (get_text text).
Proof.
  unfold get_text. rewrite get_text_lines_filter.
  pose proof (PyFacts.split_fields_no_sep Py.NL text) as H.
  induction (Py.split Py.NL text) as [|line rest IH]; simpl; [constructor|].
  inversion H; subst.
  destruct (well_formed line) eqn:E; simpl; [|auto].
  constructor; [apply pair_of_line_clean; assumption | auto].
Qed.

(** C6: every line of the file that does not split into exactly two
    tab-separated fields is passed over and parsing goes on; the pairs are
    those of the well-formed lines, one each and in the order of the file,
    each pair holding the two fields of its line, and there are as many
    pairs as well-formed lines. *)
Theorem get_text_well_formed_lines (text : string) :
  let lines := Py.split Py.NL text in
  get_text text = map pair_of_line (filter well_formed lines) /\
  List.length (get_text text) = List.length (filter well_formed lines) /\
  Forall2 (fun line pr => line = (fst pr ++ String Py.TAB (snd pr))%string)
          (filter well_formed lines) (get_text text).
Proof.
  intros lines. unfold get_text. fold lines.
  rewrite get_text_lines_filter. split; [reflexivity|]. split.
  - apply length_map.
  - induction lines as [|line rest IH]; simpl; [constructor|].
    destruct (well_formed line) eqn:E; simpl; [|exact IH].
    constructor; [apply well_formed_line; exact E | exact IH].
Qed.


(** ** The dedup and upsert loop *)

Module UpsertFacts.

Import Upsert.

Lemma contains_In (l : list string) (x : string) :
  contains l x = true <-> In x l.
Proof.
  unfold contains. rewrite existsb_exists. split.
  - intros [y [Hy E]]. apply String.eqb_eq in E. subst. exact Hy.
  - intros H. exists x. split; [exact H | apply String.eqb_refl].
Qed.

Lemma loop_app (l1 l2 : list Pair) (i : nat) (st : state) :
  loop i (l1 ++ l2) st = loop (i + List.length l1) l2 (loop i l1 st).
Proof.
  revert i st. induction l1 as [|pr l1 IH]; intros i st; simpl.
  - rewrite Nat.add_0_r. reflexivity.
  - rewrite IH. f_equal. lia.
Qed.

(** [enumerate] hands the pair after the prefix [l] the ordinal
    [length l]. *)
Lemma cell11_snoc (l : list Pair) (pr : Pair) :
  cell11 (l ++ [pr]) = step (List.length l) pr (cell11 l).
Proof. unfold cell11. rewrite loop_app. reflexivity. Qed.

Lemma combine_snoc {A B : Type} (l : list A) (m : list B) (a : A) (b : B) :
  List.length l = List.length m ->
  combine (l ++ [a]) (m ++ [b]) = combine l m ++ [(a, b)].
Proof. intros H. rewrite PyFacts.combine_app by exact H. reflexivity. Qed.

(** The pending lists after the first [if], and what the second [if]
    makes of them. *)
Lemma step_unfold (i : nat) (query passage : string) (st : state) :
  step i (query, passage) st =
  let pb := fst (add_passage i passage st) in
  let ib := snd (add_passage i passage st) in
  if Nat.eqb (List.length pb) batch_size
  then mkState (pairs st ++ [(query, passage)]) [] [] (upserts st ++ [mkFlush ib pb])
  else mkState (pairs st ++ [(query, passage)]) pb ib (upserts st).
Proof.
  unfold step. destruct (add_passage i passage st) as [pb ib]. reflexivity.
Qed.

(** A step leaves the batched records alone, or adds one at the end. *)
Lemma batched_step (i : nat) (query passage : string) (st : state) :
  List.length (id_batch st) = List.length (passage_batch st) ->
  batched (step i (query, passage) st) =
  batched st ++
  (if contains (passage_batch st) passage then [] else [(Py.str i, passage)]).
Proof.
  intros Hpar. rewrite step_unfold. unfold add_passage, batched, sent.
  destruct (contains (passage_batch st) passage); cbn [fst snd].
  - destruct (Nat.eqb _ _); cbn [upserts id_batch passage_batch].
    + rewrite flat_map_app. cbn. rewrite !app_nil_r. reflexivity.
    + rewrite app_nil_r. reflexivity.
  - destruct (Nat.eqb _ _); cbn [upserts id_batch passage_batch].
    + rewrite flat_map_app. cbn. rewrite !app_nil_r.
      unfold records. cbn. rewrite combine_snoc by exact Hpar.
      rewrite app_assoc. reflexivity.
    + rewrite combine_snoc by exact Hpar. rewrite app_assoc. reflexivity.
Qed.

Lemma Inv_init : Inv [] init.
Proof.
  constructor; cbn; try reflexivity.
  - unfold batch_size. lia.
  - constructor.
  - constructor.
  - exists []. repeat split; constructor.
Qed.

Lemma Inv_step (l : list Pair) (pr : Pair) (st : state) :
  Inv l st -> Inv (l ++ [pr]) (step (List.length l) pr st).
Proof.
  intros [Hp Hpar Hlt Hfl Hnd [recs [Hb [Hrec Hnd']]]].
  destruct pr as [query passage].
  assert (Hrec' : Forall (fun r => exists q,
             nth_error (l ++ [(query, passage)]) (fst r) = Some (q, snd r)) recs).
  { eapply Forall_impl; [|exact Hrec]. intros r [q Hq]. exists q.
    rewrite nth_error_app1; [exact Hq|].
    apply nth_error_Some. congruence. }
  assert (Hfresh : ~ In (List.length l) (map fst recs)).
  { intros Hin. apply in_map_iff in Hin. destruct Hin as [r [Hr Hin]].
    rewrite Forall_forall in Hrec. destruct (Hrec r Hin) as [q Hq].
    assert (fst r < List.length l) by (apply nth_error_Some; congruence).
    lia. }
  assert (Hrecs : exists recs' : list (nat * string),
      batched (step (List.length l) (query, passage) st)
        = map (fun r => (Py.str (fst r), snd r)) recs' /\
      Forall (fun r => exists q,
        nth_error (l ++ [(query, passage)]) (fst r) = Some (q, snd r)) recs' /\
      NoDup (map fst recs')).
  { rewrite batched_step by exact Hpar.
    destruct (contains (passage_batch st) passage).
    - exists recs. rewrite app_nil_r. auto.
    - exists (recs ++ [(List.length l, passage)]). split; [|split].
      + rewrite map_app, Hb. reflexivity.
      + apply Forall_app. split; [exact Hrec'|].
        constructor; [|constructor]. exists query. cbn.
        rewrite nth_error_app2 by lia. rewrite Nat.sub_diag. reflexivity.
      + rewrite map_app. apply NoDup_app; [exact Hnd' | |].
        * constructor; [intros [] | constructor].
        * intros a Ha [E|[]]. cbn in E. subst a. exact (Hfresh Ha). }
  rewrite step_unfold. unfold add_passage.
  destruct (contains (passage_batch st) passage) eqn:Ec; cbn [fst snd].
  - assert (En : Nat.eqb (List.length (passage_batch st)) batch_size = false)
      by (apply Nat.eqb_neq; lia).
    rewrite step_unfold in Hrecs. unfold add_passage in Hrecs.
    rewrite Ec in Hrecs. cbn [fst snd] in Hrecs. rewrite En in Hrecs.
    rewrite En. constructor; cbn; try assumption. rewrite Hp. reflexivity.
  - assert (Hnin : ~ In passage (passage_batch st)).
    { intros Hin. apply contains_In in Hin. congruence. }
    rewrite step_unfold in Hrecs. unfold add_passage in Hrecs.
    rewrite Ec in Hrecs. cbn [fst snd] in Hrecs.
    destruct (Nat.eqb (List.length (passage_batch st ++ [passage])) batch_size) eqn:En.
    + apply Nat.eqb_eq in En.
      constructor; cbn; try assumption.
      * rewrite Hp. reflexivity.
      * reflexivity.
      * unfold batch_size. lia.
      * apply Forall_app. split; [exact Hfl|].
        constructor; [|constructor]. cbn. split; [|exact En].
        rewrite length_app in *. cbn in *. lia.
      * constructor.
    + apply Nat.eqb_neq in En.
      constructor; cbn; try assumption.
      * rewrite Hp. reflexivity.
      * rewrite !length_app. cbn. lia.
      * rewrite length_app in *. cbn in *. lia.
      * apply NoDup_app; [exact Hnd | |].
        -- constructor; [intros [] | constructor].
        -- intros a Ha [E|[]]. subst a. exact (Hnin Ha).
Qed.

Lemma Inv_cell11 (l : list Pair) : Inv l (cell11 l).
Proof.
  induction l as [|pr l IH] using rev_ind.
  - exact Inv_init.
  - rewrite cell11_snoc. apply Inv_step. exact IH.
Qed.

End UpsertFacts.

Module UpsertProps.

Import Upsert UpsertFacts.

Lemma map_fst_combine {A B : Type} (l : list A) (m : list B) :
  List.length l = List.length m -> map fst (combine l m) = l.
Proof.
  revert m. induction l as [|a l IH]; intros [|b m] H; simpl in *;
    try discriminate; [reflexivity|].
  rewrite IH by lia. reflexivity.
Qed.

Lemma NoDup_app_disjoint {A : Type} (l m : list A) :
  NoDup (l ++ m) -> Forall (fun x => ~ In x l) m.
Proof.
  intros H. apply Forall_forall. intros x Hm Hl.
  induction l as [|a l IH]; [exact Hl|].
  simpl in H. inversion H as [|? ? Hna Hnd]; subst.
  destruct Hl as [E|Hl].
  - subst a. apply Hna. apply in_or_app. right. exact Hm.
  - exact (IH Hnd Hl).
Qed.

(** The ids batched in a run are pairwise distinct. *)
Lemma batched_ids_nodup (l : list Pair) :
  NoDup (map fst (batched (cell11 l))).
Proof.
  destruct (Inv_cell11 l) as [_ _ _ _ _ [recs [Hb [_ Hnd]]]].
  rewrite Hb, map_map. cbn [fst].
  rewrite <- (map_map fst Py.str).
  apply Injective_map_NoDup; [|exact Hnd].
  intros i j. apply PyFacts.str_inj.
Qed.

(** C4: the pending batch is sent exactly when the first [if] leaves it
    with 64 passages, and both pending lists are then emptied; otherwise
    nothing is sent and the lists are kept.  So every flush of a run holds
    64 passages and 64 ids, fewer than 64 passages are pending when the
    input ends, and none of the pending ids was ever sent. *)
Theorem flush_exactly_at_batch_size (l : list Pair) (query passage : string) :
  let st := cell11 l in
  let pb := fst (add_passage (List.length l) passage st) in
  let ib := snd (add_passage (List.length l) passage st) in
  let st' := cell11 (l ++ [(query, passage)]) in
  batch_size = 64 /\
  upserts st' =
    (if Nat.eqb (List.length pb) 64 then upserts st ++ [mkFlush ib pb]
     else upserts st) /\
  passage_batch st' = (if Nat.eqb (List.length pb) 64 then [] else pb) /\
  id_batch st' = (if Nat.eqb (List.length pb) 64 then [] else ib) /\
  Forall (fun f => List.length (flush_passages f) = 64 /\
                   List.length (flush_ids f) = 64) (upserts st) /\
  List.length (passage_batch st) < 64 /\
  Forall (fun id => ~ In id (map fst (sent st))) (id_batch st).
Proof.
  intros st pb ib st'.
  destruct (Inv_cell11 l) as [_ Hpar Hlt Hfl _ _]. fold st in Hpar, Hlt, Hfl.
  split; [reflexivity|].
  assert (Est : st' = step (List.length l) (query, passage) st)
    by apply cell11_snoc.
  rewrite Est, step_unfold. fold pb ib. change batch_size with 64.
  cbv zeta.
  split; [destruct (Nat.eqb (List.length pb) 64); reflexivity|].
  split; [destruct (Nat.eqb (List.length pb) 64); reflexivity|].
  split; [destruct (Nat.eqb (List.length pb) 64); reflexivity|].
  split.
  { eapply Forall_impl; [|exact Hfl]. intros f [H1 H2]. split; assumption. }
  split; [exact Hlt|].
  pose proof (batched_ids_nodup l) as Hnd. fold st in Hnd.
  unfold batched in Hnd. rewrite map_app, map_fst_combine in Hnd by exact Hpar.
  apply NoDup_app_disjoint. exact Hnd.
Qed.

(** After 65 pairs with distinct passages one batch of 64 has been sent and
    the 65th record is left pending, unsent. *)
Example partial_batch_is_dropped :
  let st := cell11 (stream passage_n 65) in
  List.length (upserts st) = 1 /\
  List.length (sent st) = 64 /\
  combine (id_batch st) (passage_batch st) = [("64", "p64")] /\
  existsb (String.eqb "64") (map fst (sent st)) = false.
Proof. vm_compute. repeat split. Qed.

(** C7: when the passage of the pair that follows the prefix [l] is not in
    the pending batch, the first [if] appends it, with the decimal string
    of the pair's ordinal [length l] as its id, to the two pending lists;
    the run thereby gains the record (id, passage), and the ordinal is the
    position of the pair in [pairs]. *)
Theorem new_passage_gets_ordinal_id (l : list Pair) (query passage : string) :
  contains (passage_batch (cell11 l)) passage = false ->
  let st := cell11 l in
  let st' := cell11 (l ++ [(query, passage)]) in
  add_passage (List.length l) passage st =
    (passage_batch st ++ [passage], id_batch st ++ [Py.str (List.length l)]) /\
  batched st' = batched st ++ [(Py.str (List.length l), passage)] /\
  nth_error (pairs st') (List.length l) = Some (query, passage).
Proof.
  intros Hnew st st'.
  destruct (Inv_cell11 l) as [_ Hpar _ _ _ _]. fold st in Hpar.
  split; [|split].
  - unfold add_passage. fold st in Hnew. rewrite Hnew. reflexivity.
  - unfold st'. rewrite cell11_snoc. fold st.
    rewrite batched_step by exact Hpar. fold st in Hnew. rewrite Hnew.
    reflexivity.
  - destruct (Inv_cell11 (l ++ [(query, passage)])) as [Hp _ _ _ _ _].
    fold st' in Hp. rewrite Hp.
    rewrite nth_error_app2 by lia. rewrite Nat.sub_diag. reflexivity.
Qed.

Lemma new_passage_gets_ordinal_id_witness :
  contains (passage_batch (cell11 [("q0", "p0")])) "p1" = false /\
  batched (cell11 ([("q0", "p0")] ++ [("q1", "p1")])) =
    batched (cell11 [("q0", "p0")]) ++ [(Py.str 1, "p1")].
Proof.
  split; [reflexivity|].
  apply (new_passage_gets_ordinal_id [("q0", "p0")] "q1" "p1"). reflexivity.
Defined.

(** C9: every id sent to the index in a run is the decimal string of an
    index [i] in range for the run's [pairs]; [int] gives [i] back, and
    [pairs[i]] holds the passage that was sent under that id, so the
    lookup [pairs[int(id)][1]] of the mining pass succeeds on it. *)
Theorem upserted_id_indexes_its_passage (l : list Pair) (id passage : string) :
  In (id, passage) (sent (cell11 l)) ->
  pairs (cell11 l) = l /\
  exists (i : nat) (query : string),
    id = Py.str i /\
    i < List.length (pairs (cell11 l)) /\
    Py.int id = Py.Ok (Z.of_nat i) /\
    Py.getitem (pairs (cell11 l)) (Z.of_nat i) = Py.Ok (query, passage) /\
    Mining.neg_passage_of (pairs (cell11 l)) (Mining.mkHit id) = Py.Ok passage.
Proof.
  intros Hin.
  destruct (Inv_cell11 l) as [Hp _ _ _ _ [recs [Hb [Hrec _]]]].
  split; [exact Hp|].
  assert (Hin' : In (id, passage) (batched (cell11 l)))
    by (unfold batched; apply in_or_app; left; exact Hin).
  rewrite Hb in Hin'. apply in_map_iff in Hin'.
  destruct Hin' as [[i p] [E Hr]]. cbn in E. inversion E; subst.
  rewrite Forall_forall in Hrec. destruct (Hrec _ Hr) as [q Hq]. cbn in Hq.
  exists i, q. rewrite Hp. repeat split.
  - apply nth_error_Some. congruence.
  - apply PyFacts.int_str.
  - apply PyFacts.getitem_nat. exact Hq.
  - unfold Mining.neg_passage_of. cbn [Mining.hit_id].
    rewrite PyFacts.int_str, (PyFacts.getitem_nat _ _ _ Hq). reflexivity.
Qed.

Lemma upserted_id_indexes_its_passage_witness :
  exists (i : nat) (query : string),
    "0" = Py.str i /\
    i < List.length (pairs (cell11 (stream passage_n 64))) /\
    Py.int "0" = Py.Ok (Z.of_nat i) /\
    Py.getitem (pairs (cell11 (stream passage_n 64))) (Z.of_nat i)
      = Py.Ok (query, "p0") /\
    Mining.neg_passage_of (pairs (cell11 (stream passage_n 64)))
      (Mining.mkHit "0") = Py.Ok "p0".
Proof.
  apply (upserted_id_indexes_its_passage (stream passage_n 64) "0" "p0").
  vm_compute. left. reflexivity.
Defined.

(** C1, on an input: the 128 pairs of [repeat_after_flush] hold 127
    distinct passages and leave nothing pending, yet 128 records are sent,
    the passage p0 twice: as record 0 under the id 0 and, after the first
    flush has emptied the pending batch, again under the id 64. *)
Theorem duplicate_passage_sent_after_flush :
  let st := cell11 repeat_after_flush in
  List.length repeat_after_flush = 128 /\
  distinct_passages repeat_after_flush = 127 /\
  List.length (sent st) = 128 /\
  passage_batch st = [] /\
  nth_error repeat_after_flush 0 = Some ("q0", "p0") /\
  nth_error repeat_after_flush 64 = Some ("q64", "p0") /\
  nth_error (sent st) 0 = Some ("0", "p0") /\
  nth_error (sent st) 64 = Some ("64", "p0").
Proof. vm_compute. repeat split. Qed.

End UpsertProps.

(** ** The mining pass *)

Module MiningFacts.

Import Py Mining.

Lemma neg_passage_of_In (pairs : list Pair) (h : hit) (p : string) :
  neg_passage_of pairs h = Ok p -> In p (map snd pairs).
Proof.
  unfold neg_passage_of. intros H.
  destruct (int (hit_id h)) as [z|]; [|discriminate].
  destruct (getitem pairs z) as [pr|] eqn:E; [|discriminate].
  inversion H; subst. apply in_map. eapply PyFacts.getitem_In. exact E.
Qed.

(** The scan of one query adds nothing or one line, and a line it adds is
    sound. *)
Lemma find_negative_outcome (pairs : list Pair) (query pos_passage : string)
    (top_results : list hit) (triplets triplets' : list string) :
  find_negative pairs query pos_passage top_results triplets = Ok triplets' ->
  exists o : option string,
    triplets' = triplets ++ line_of (query, pos_passage) o /\
    sound pairs ((query, pos_passage), o).
Proof.
  induction top_results as [|h rest IH]; simpl; intros H.
  - inversion H; subst. exists None. split; [now rewrite app_nil_r | exact I].
  - destruct (neg_passage_of pairs h) as [neg|] eqn:E; [|discriminate].
    destruct (String.eqb neg pos_passage) eqn:Eq.
    + apply IH. exact H.
    + inversion H; subst. exists (Some neg). split; [reflexivity|].
      split; [apply String.eqb_neq; exact Eq | eapply neg_passage_of_In; exact E].
Qed.

(** Candidates whose passage is the positive are passed over. *)
Lemma find_negative_skip (pairs : list Pair) (query pos_passage : string)
    (same rest : list hit) (triplets : list string) :
  Forall (fun h => neg_passage_of pairs h = Ok pos_passage) same ->
  find_negative pairs query pos_passage (same ++ rest) triplets =
  find_negative pairs query pos_passage rest triplets.
Proof.
  induction 1 as [|h same Hh _ IH]; [reflexivity|].
  simpl. rewrite Hh, String.eqb_refl. exact IH.
Qed.

(** The scan raises nothing when every candidate names a pair. *)
Lemma find_negative_no_error (pairs : list Pair) (query pos_passage : string)
    (top_results : list hit) (triplets : list string) :
  Forall (fun h => exists p, neg_passage_of pairs h = Ok p) top_results ->
  exists triplets',
    find_negative pairs query pos_passage top_results triplets = Ok triplets'.
Proof.
  induction 1 as [|h rest [p Hp] _ IH]; simpl.
  - exists triplets. reflexivity.
  - rewrite Hp. destruct (String.eqb p pos_passage); [exact IH|].
    eexists. reflexivity.
Qed.

Section Run.

Context {world vector : Type}.
Variable encode : list string -> world -> result (list vector * world).
Variable index_query : list vector -> nat -> world
                       -> result (list query_res * world).
Variable shuffle : list hit -> world -> list hit * world.

Lemma bind_Ok {A B : Type} (m : M (world := world) A) (k : A -> M B)
    (w : world) (r : B * world) :
  bind m k w = Ok r -> exists a w1, m w = Ok (a, w1) /\ k a w1 = Ok r.
Proof.
  unfold bind. destruct (m w) as [[a w1]|]; [|discriminate].
  intros H. exists a, w1. split; [reflexivity | exact H].
Qed.

Lemma mine_query_unfold (pairs : list Pair) (query pos_passage : string)
    (qr : query_res) (triplets : list string) (w : world) :
  mine_query shuffle pairs query pos_passage qr triplets w =
  match find_negative pairs query pos_passage
          (fst (shuffle (matches qr) w)) triplets with
  | Ok t => Ok (t, snd (shuffle (matches qr) w))
  | Raise e => Raise e
  end.
Proof.
  unfold mine_query, bind, total, lift.
  destruct (shuffle (matches qr) w) as [l w1]. reflexivity.
Qed.

Lemma mine_query_outcome (pairs : list Pair) (query pos_passage : string)
    (qr : query_res) (triplets triplets' : list string) (w w' : world) :
  mine_query shuffle pairs query pos_passage qr triplets w = Ok (triplets', w') ->
  exists o : option string,
    triplets' = triplets ++ line_of (query, pos_passage) o /\
    sound pairs ((query, pos_passage), o).
Proof.
  rewrite mine_query_unfold.
  destruct (find_negative _ _ _ _ _) as [t|] eqn:E; [|discriminate].
  intros H. inversion H; subst. eapply find_negative_outcome. exact E.
Qed.

Lemma lines_of_app (r1 r2 : list (Pair * option string)) :
  lines_of (r1 ++ r2) = lines_of r1 ++ lines_of r2.
Proof. apply flat_map_app. Qed.

Lemma mine_rows_outcome (pairs : list Pair)
    (rows : list ((string * string) * query_res))
    (triplets triplets' : list string) (w w' : world) :
  mine_rows shuffle pairs rows triplets w = Ok (triplets', w') ->
  exists outs : list (option string),
    List.length outs = List.length rows /\
    triplets' = triplets ++ lines_of (combine (map fst rows) outs) /\
    Forall (sound pairs) (combine (map fst rows) outs).
Proof.
  revert triplets w. induction rows as [|[[q p] qr] rows IH]; intros T w H.
  - inversion H; subst. exists []. cbn. rewrite app_nil_r. auto.
  - cbn [mine_rows] in H. apply bind_Ok in H.
    destruct H as [T1 [w1 [H1 H2]]].
    apply mine_query_outcome in H1. destruct H1 as [o [E1 S1]].
    apply IH in H2. destruct H2 as [outs [L [E2 S2]]].
    exists (o :: outs). cbn [map combine List.length]. split; [lia|]. split.
    + rewrite E2, E1. unfold lines_of at 2. cbn [flat_map fst snd].
      rewrite app_assoc. reflexivity.
    + constructor; assumption.
Qed.

Lemma map_fst_combine_firstn {A B : Type} (l : list A) (m : list B) :
  map fst (combine l m) = firstn (List.length m) l.
Proof.
  revert m. induction l as [|a l IH]; intros [|b m]; simpl; try reflexivity.
  rewrite IH. reflexivity.
Qed.

Lemma lines_of_none (l : list Pair) (n : nat) :
  lines_of (combine l (repeat None n)) = [].
Proof.
  revert n. induction l as [|a l IH]; intros [|n]; simpl; try reflexivity.
  apply IH.
Qed.

Lemma sound_none (pairs l : list Pair) (n : nat) :
  Forall (sound pairs) (combine l (repeat None n)).
Proof.
  revert n. induction l as [|a l IH]; intros [|n]; simpl; constructor.
  - exact I.
  - apply IH.
Qed.

(** Queries that [zip] cut off for want of an index answer count as
    queries without a negative. *)
Lemma pad_outcomes (pairs b : list Pair) (n : nat) (outs : list (option string)) :
  List.length outs = List.length (firstn n b) ->
  Forall (sound pairs) (combine (firstn n b) outs) ->
  exists outs' : list (option string),
    List.length outs' = List.length b /\
    lines_of (combine b outs') = lines_of (combine (firstn n b) outs) /\
    Forall (sound pairs) (combine b outs').
Proof.
  intros L S.
  exists (outs ++ repeat None (List.length (skipn n b))).
  split; [|split].
  - rewrite length_app, repeat_length, L.
    rewrite <- (firstn_skipn n b) at 3. rewrite length_app. reflexivity.
  - rewrite <- (firstn_skipn n b) at 1.
    rewrite PyFacts.combine_app by (symmetry; exact L).
    rewrite lines_of_app, lines_of_none, app_nil_r. reflexivity.
  - rewrite <- (firstn_skipn n b) at 1.
    rewrite PyFacts.combine_app by (symmetry; exact L).
    apply Forall_app. split; [exact S | apply sound_none].
Qed.

Lemma mine_batch_outcome (pairs : list Pair) (i : nat)
    (triplets triplets' : list string) (w w' : world) :
  mine_batch encode index_query shuffle pairs i triplets w = Ok (triplets', w') ->
  let b := slice pairs i (Nat.min (i + batch_size) (List.length pairs)) in
  exists outs : list (option string),
    List.length outs = List.length b /\
    triplets' = triplets ++ lines_of (combine b outs) /\
    Forall (sound pairs) (combine b outs).
Proof.
  intros H b. unfold mine_batch in H. fold b in H.
  apply bind_Ok in H. destruct H as [embs [w1 [_ H]]].
  apply bind_Ok in H. destruct H as [res [w2 [_ H]]].
  rewrite PyFacts.combine_fst_snd in H.
  apply mine_rows_outcome in H. destruct H as [outs [L [E S]]].
  rewrite map_fst_combine_firstn in E, S.
  assert (L' : List.length outs = List.length (firstn (List.length res) b)).
  { rewrite L, length_combine, length_firstn. apply Nat.min_comm. }
  destruct (pad_outcomes pairs b _ outs L' S) as [outs' [L2 [E2 S2]]].
  exists outs'. split; [exact L2|]. split; [|exact S2].
  rewrite E2. exact E.
Qed.

Lemma mine_batches_outcome (pairs : list Pair) (starts : list nat)
    (triplets triplets' : list string) (w w' : world) :
  mine_batches encode index_query shuffle pairs starts triplets w
    = Ok (triplets', w') ->
  let rows := List.concat (map (fun i =>
      slice pairs i (Nat.min (i + batch_size) (List.length pairs))) starts) in
  exists outs : list (option string),
    List.length outs = List.length rows /\
    triplets' = triplets ++ lines_of (combine rows outs) /\
    Forall (sound pairs) (combine rows outs).
Proof.
  revert triplets w. induction starts as [|i starts IH]; intros T w H; cbn zeta.
  - inversion H; subst. exists []. cbn. rewrite app_nil_r. auto.
  - cbn [mine_batches] in H. apply bind_Ok in H.
    destruct H as [T1 [w1 [H1 H2]]].
    apply mine_batch_outcome in H1. destruct H1 as [o1 [L1 [E1 S1]]].
    apply IH in H2. destruct H2 as [o2 [L2 [E2 S2]]].
    exists (o1 ++ o2). cbn [map List.concat].
    rewrite PyFacts.combine_app by (symmetry; exact L1).
    split; [rewrite !length_app; lia|]. split.
    + rewrite E2, E1, lines_of_app, app_assoc. reflexivity.
    + apply Forall_app. split; assumption.
Qed.

(** One batch: one encoder call on the queries of the chunk of 100 that
    starts at [i], one index query for [top_k] matches each, then the rows
    of the chunk paired with the answers. *)
Lemma mine_batch_chunk (pairs : list Pair) (i : nat) (triplets : list string)
    (w : world) :
  mine_batch encode index_query shuffle pairs i triplets w =
  let b := firstn 100 (skipn i pairs) in
  match encode (map fst b) w with
  | Ok (query_embs, w1) =>
      match index_query query_embs 10 w1 with
      | Ok (res, w2) => mine_rows shuffle pairs (combine b res) triplets w2
      | Raise e => Raise e
      end
  | Raise e => Raise e
  end.
Proof.
  unfold mine_batch, bind.
  rewrite PyFacts.slice_firstn by (unfold batch_size; lia).
  change batch_size with 100. cbn zeta.
  destruct (encode _ w) as [[embs w1]|]; [|reflexivity].
  change top_k with 10.
  destruct (index_query embs 10 w1) as [[res w2]|]; [|reflexivity].
  rewrite PyFacts.combine_fst_snd. reflexivity.
Qed.

End Run.

(** *** The batches *)

Lemma range_from_seq (start step count : nat) :
  range_from start step count = map (fun j => start + j * step) (seq 0 count).
Proof.
  revert start. induction count as [|c IH]; intros s; [reflexivity|].
  cbn [range_from seq map]. f_equal; [lia|].
  rewrite IH, <- seq_shift, map_map. apply map_ext. intros j. lia.
Qed.

Lemma batch_count (n : nat) :
  let c := (n + (batch_size - 1)) / batch_size in
  n <= c * batch_size /\ (forall j, j < c -> j * batch_size < n).
Proof.
  intros c. subst c. unfold batch_size. change (100 - 1) with 99.
  set (c := (n + 99) / 100).
  pose proof (Nat.div_mod_eq (n + 99) 100) as E. fold c in E.
  pose proof (Nat.mod_upper_bound (n + 99) 100) as U.
  split; [lia | intros j Hj; lia].
Qed.

Lemma batches_chunks (pairs : list Pair) :
  batches pairs =
  map (fun j => firstn 100 (skipn (j * 100) pairs))
      (seq 0 ((List.length pairs + 99) / 100)).
Proof.
  unfold batches, range_step. rewrite range_from_seq, map_map.
  apply map_ext. intros j. cbn [Nat.add].
  apply PyFacts.slice_firstn. unfold batch_size. lia.
Qed.

Lemma concat_chunks {A : Type} (l : list A) (n c start : nat) :
  List.concat (map (fun j => firstn n (skipn (start + j * n) l)) (seq 0 c)) =
  firstn (c * n) (skipn start l).
Proof.
  revert start. induction c as [|c IH]; intros s; [reflexivity|].
  cbn [seq map List.concat]. rewrite <- seq_shift, map_map.
  rewrite (map_ext _ (fun j => firstn n (skipn ((s + n) + j * n) l)))
    by (intros j; do 2 f_equal; lia).
  rewrite IH. rewrite Nat.add_0_r.
  change (S c * n) with (n + c * n). rewrite PyFacts.firstn_add.
  rewrite skipn_skipn. do 3 f_equal. lia.
Qed.

Lemma batches_concat (pairs : list Pair) : List.concat (batches pairs) = pairs.
Proof.
  rewrite batches_chunks.
  rewrite (map_ext _ (fun j => firstn 100 (skipn (0 + j * 100) pairs)))
    by reflexivity.
  rewrite concat_chunks. cbn [skipn].
  apply firstn_all2.
  pose proof (batch_count (List.length pairs)) as [H _].
  unfold batch_size in H. cbn [Nat.sub] in H. exact H.
Qed.


Lemma range_step_starts (n : nat) :
  range_step n batch_size =
  map (fun j => j * 100) (seq 0 ((n + 99) / 100)).
Proof. unfold range_step. rewrite range_from_seq. reflexivity. Qed.

(** *** The whole pass *)

Lemma mining_outcome {world vector : Type}
    (encode : list string -> world -> result (list vector * world))
    (index_query : list vector -> nat -> world -> result (list query_res * world))
    (shuffle : list hit -> world -> list hit * world)
    (pairs : list Pair) (w w' : world) (triplets : list string) :
  mining encode index_query shuffle pairs w = Ok (triplets, w') ->
  exists outs : list (option string),
    List.length outs = List.length pairs /\
    triplets = lines_of (combine pairs outs) /\
    Forall (sound pairs) (combine pairs outs).
Proof.
  intros H. unfold mining in H. apply mine_batches_outcome in H.
  cbn zeta in H. fold (batches pairs) in H. rewrite batches_concat in H.
  exact H.
Qed.

Lemma lines_of_length (rows : list (Pair * option string)) :
  List.length (lines_of rows) <= List.length rows.
Proof.
  induction rows as [|[pr o] rows IH]; [apply Nat.le_refl|].
  unfold lines_of. cbn [flat_map fst snd]. fold (lines_of rows).
  rewrite length_app. cbn [List.length].
  destruct o; cbn [line_of List.length]; lia.
Qed.

Lemma lines_of_emitted (pairs : list Pair) (rows : list (Pair * option string)) :
  (forall r, In r rows -> In (fst r) pairs) ->
  Forall (sound pairs) rows ->
  Forall (emitted pairs) (lines_of rows).
Proof.
  induction rows as [|[[q p] o] rows IH]; intros Hin Hs; [constructor|].
  inversion Hs as [|? ? S1 S2]; subst.
  unfold lines_of. cbn [flat_map fst snd]. apply Forall_app. split.
  - destruct o as [n|]; cbn; [|constructor].
    constructor; [|constructor]. destruct S1 as [Hne Hpool].
    exists q, p, n. cbn in Hne. repeat split; try assumption.
    apply (Hin ((q, p), Some n)). left. reflexivity.
  - apply IH; [|exact S2]. intros r Hr. apply Hin. right. exact Hr.
Qed.

Lemma mining_emitted {world vector : Type}
    (encode : list string -> world -> result (list vector * world))
    (index_query : list vector -> nat -> world -> result (list query_res * world))
    (shuffle : list hit -> world -> list hit * world)
    (pairs : list Pair) (w w' : world) (triplets : list string) :
  mining encode index_query shuffle pairs w = Ok (triplets, w') ->
  Forall (emitted pairs) triplets.
Proof.
  intros H. apply mining_outcome in H. destruct H as [outs [_ [E S]]].
  subst triplets. apply lines_of_emitted; [|exact S].
  intros [pr o] Hr. cbn. eapply in_combine_l. exact Hr.
Qed.

(** *** Triplet lines *)




End MiningFacts.

Module MiningProps.

Import Py Mining MiningFacts.

(** C2: every line the pass emits is a query of [pairs] with its positive
    and a negative that is a passage of [pairs] and differs from the
    positive as a string. *)
Theorem negative_differs_from_positive {world vector : Type}
    (encode : list string -> world -> result (list vector * world))
    (index_query : list vector -> nat -> world -> result (list query_res * world))
    (shuffle : list hit -> world -> list hit * world)
    (pairs : list Pair) (w w' : world) (triplets : list string) :
  mining encode index_query shuffle pairs w = Ok (triplets, w') ->
  Forall (fun t =>
    exists query pos_passage neg_passage : string,
      In (query, pos_passage) pairs /\
      In neg_passage (map snd pairs) /\
      neg_passage <> pos_passage /\
      t = triplet query pos_passage neg_passage) triplets.
Proof. intros H. exact (mining_emitted _ _ _ _ _ _ _ H). Qed.

Lemma negative_differs_from_positive_witness :
  mining demo_encode (demo_index_query ["0"; "1"]) demo_shuffle demo_pairs tt =
    Ok ([triplet "what is a cat" "A cat is a small mammal."
                 "A dog is a domesticated canine.";
         triplet "what is a dog" "A dog is a domesticated canine."
                 "A cat is a small mammal."], tt) /\
  Forall (emitted demo_pairs)
    [triplet "what is a cat" "A cat is a small mammal."
             "A dog is a domesticated canine.";
     triplet "what is a dog" "A dog is a domesticated canine."
             "A cat is a small mammal."].
Proof.
  split; [reflexivity|].
  apply (negative_differs_from_positive demo_encode
           (demo_index_query ["0"; "1"]) demo_shuffle demo_pairs tt tt).
  reflexivity.
Defined.

(** C3: the candidates are scanned in their shuffled order.  Once those
    before some candidate all carry the positive and that candidate carries
    another passage, exactly one line is added, made of the query, the
    positive and that passage, whatever follows the candidate; when every
    candidate carries the positive, nothing is added, no error is raised,
    and the loop goes on with the next query. *)
Theorem first_differing_candidate_is_negative {world : Type}
    (shuffle : list hit -> world -> list hit * world)
    (pairs : list Pair) (query pos_passage : string) (qr : query_res)
    (triplets : list string) (w : world) :
  let shuffled := fst (shuffle (matches qr) w) in
  let w' := snd (shuffle (matches qr) w) in
  (forall (same : list hit) (h : hit) (rest : list hit) (neg_passage : string),
     shuffled = same ++ h :: rest ->
     Forall (fun c => neg_passage_of pairs c = Ok pos_passage) same ->
     neg_passage_of pairs h = Ok neg_passage ->
     neg_passage <> pos_passage ->
     mine_query shuffle pairs query pos_passage qr triplets w =
       Ok (triplets ++ [triplet query pos_passage neg_passage], w')) /\
  (Forall (fun c => neg_passage_of pairs c = Ok pos_passage) shuffled ->
     mine_query shuffle pairs query pos_passage qr triplets w = Ok (triplets, w') /\
     forall rows,
       mine_rows shuffle pairs (((query, pos_passage), qr) :: rows) triplets w =
       mine_rows shuffle pairs rows triplets w').
Proof.
  intros shuffled w'. split.
  - intros same h rest neg E Hsame Hh Hne.
    rewrite mine_query_unfold. fold shuffled w'. rewrite E.
    rewrite find_negative_skip by exact Hsame.
    cbn [find_negative]. rewrite Hh.
    apply String.eqb_neq in Hne. rewrite Hne. reflexivity.
  - intros Hall.
    assert (Hq : mine_query shuffle pairs query pos_passage qr triplets w
                 = Ok (triplets, w')).
    { rewrite mine_query_unfold. fold shuffled w'.
      rewrite <- (app_nil_r shuffled).
      rewrite find_negative_skip by exact Hall. reflexivity. }
    split; [exact Hq|].
    intros rows. cbn [mine_rows]. unfold bind. rewrite Hq. reflexivity.
Qed.

Lemma first_differing_candidate_is_negative_witness :
  mine_query demo_shuffle demo_pairs "what is a dog"
    "A dog is a domesticated canine."
    (mkQueryRes [mkHit "junk"; mkHit "0"; mkHit "1"]) [] tt =
    Ok ([] ++ [triplet "what is a dog" "A dog is a domesticated canine."
                       "A cat is a small mammal."], tt) /\
  mine_query demo_shuffle demo_pairs "what is a dog"
    "A dog is a domesticated canine."
    (mkQueryRes [mkHit "1"; mkHit "1"]) [] tt = Ok ([], tt).
Proof.
  split.
  - apply (proj1 (first_differing_candidate_is_negative demo_shuffle demo_pairs
             "what is a dog" "A dog is a domesticated canine."
             (mkQueryRes [mkHit "junk"; mkHit "0"; mkHit "1"]) [] tt)
             [mkHit "1"] (mkHit "0") [mkHit "junk"]).
    + reflexivity.
    + constructor; [reflexivity | constructor].
    + reflexivity.
    + discriminate.
  - apply (proj2 (first_differing_candidate_is_negative demo_shuffle demo_pairs
             "what is a dog" "A dog is a domesticated canine."
             (mkQueryRes [mkHit "1"; mkHit "1"]) [] tt)).
    repeat constructor.
Defined.

(** C5: a pass that ends gave each query of [pairs] at most one line: the
    lines are those of one optional negative per pair, in the order of the
    pairs, so there are no more lines than pairs. *)
Theorem at_most_one_triplet_per_query {world vector : Type}
    (encode : list string -> world -> result (list vector * world))
    (index_query : list vector -> nat -> world -> result (list query_res * world))
    (shuffle : list hit -> world -> list hit * world)
    (pairs : list Pair) (w w' : world) (triplets : list string) :
  mining encode index_query shuffle pairs w = Ok (triplets, w') ->
  exists outs : list (option string),
    List.length outs = List.length pairs /\
    triplets = flat_map (fun r => line_of (fst r) (snd r)) (combine pairs outs) /\
    Forall (fun r => List.length (line_of (fst r) (snd r)) <= 1)
           (combine pairs outs) /\
    List.length triplets <= List.length pairs.
Proof.
  intros H. apply mining_outcome in H. destruct H as [outs [L [E _]]].
  exists outs. split; [exact L|]. split; [exact E|]. split.
  - apply Forall_forall. intros [pr [n|]] _; cbn; lia.
  - rewrite E. etransitivity; [apply lines_of_length|].
    rewrite length_combine, L. apply Nat.le_min_l.
Qed.

Lemma at_most_one_triplet_per_query_witness :
  exists outs : list (option string),
    List.length outs = List.length demo_pairs /\
    [triplet "what is a dog" "A dog is a domesticated canine."
             "A cat is a small mammal."] =
      flat_map (fun r => line_of (fst r) (snd r)) (combine demo_pairs outs) /\
    Forall (fun r => List.length (line_of (fst r) (snd r)) <= 1)
           (combine demo_pairs outs) /\
    List.length [triplet "what is a dog" "A dog is a domesticated canine."
                         "A cat is a small mammal."] <= List.length demo_pairs.
Proof.
  apply (at_most_one_triplet_per_query demo_encode
           (demo_index_query ["0"]) demo_shuffle demo_pairs tt tt).
  reflexivity.
Defined.



End MiningProps.

(** * Further properties *)

(** ** The parser *)

Module ParserLaws.

Import Py.

Lemma split_app (sep : ascii) (a b : string) :
  split sep (a ++ String sep b)%string = split sep a ++ split sep b.
Proof.
  induction a as [|c a IH]; simpl.
  - rewrite Ascii.eqb_refl. reflexivity.
  - destruct (Ascii.eqb c sep); [rewrite IH; reflexivity|].
    rewrite IH.
    destruct (split sep a) as [|f fs] eqn:E; [|reflexivity].
    exfalso. exact (PyFacts.split_not_nil sep a E).
Qed.

Lemma get_text_lines_app (l1 l2 : list string) :
  get_text_lines (l1 ++ l2) = get_text_lines l1 ++ get_text_lines l2.
Proof.
  rewrite !get_text_lines_filter, filter_app, map_app. reflexivity.
Qed.

(** X1: parsing goes line by line: the pairs of two texts put together
    with a newline between them are the pairs of the first followed by the
    pairs of the second; so a newline at the end of the file adds no
    pair. *)
Theorem get_text_newline (a b : string) :
  get_text (a ++ String NL b)%string = get_text a ++ get_text b /\
  get_text (a ++ String NL EmptyString)%string = get_text a.
Proof.
  assert (H : forall x y,
             get_text (x ++ String NL y)%string = get_text x ++ get_text y).
  { intros x y. unfold get_text. rewrite split_app. apply get_text_lines_app. }
  split; [apply H|].
  rewrite H. change (get_text EmptyString) with (@nil Pair).
  apply app_nil_r.
Qed.

Lemma split_length (sep : ascii) (s : string) :
  List.length (split sep s) = S (count_char sep s).
Proof.
  induction s as [|c s IH]; [reflexivity|].
  simpl. destruct (Ascii.eqb c sep).
  - simpl. rewrite IH. reflexivity.
  - destruct (split sep s) as [|f fs]; simpl in *; [discriminate|exact IH].
Qed.

(** X2: a line gives a pair exactly when it holds one tab: a line without
    a tab or with two or more is passed over. *)
Theorem pair_iff_one_tab (line : string) :
  (exists pr, unpack2 (split TAB line) = Ok pr) <-> count_char TAB line = 1.
Proof.
  rewrite unpack2_well_formed. unfold well_formed.
  rewrite split_length. split.
  - intros [pr H]. destruct (Nat.eqb_spec (S (count_char TAB line)) 2) as [E|E];
      [lia | discriminate].
  - intros E. rewrite E. eexists. reflexivity.
Qed.






(** X4: no field of a parsed pair holds a tab or a newline. *)
Theorem parsed_fields_are_clean (text : string) :
  Forall (fun pr => ~ occurs TAB (fst pr) /\ ~ occurs NL (fst pr) /\
                    ~ occurs TAB (snd pr) /\ ~ occurs NL (snd pr))
         (get_text text).
Proof.
  eapply Forall_impl; [|apply get_text_clean].
  intros pr [[H1 H2] [H3 H4]]. tauto.
Qed.

End ParserLaws.

(** ** The dedup and upsert loop *)

Module UpsertLaws.

Import Upsert UpsertFacts.

Lemma map_snd_combine {A B : Type} (l : list A) (m : list B) :
  List.length l = List.length m -> map snd (combine l m) = m.
Proof.
  revert m. induction l as [|a l IH]; intros [|b m] H; simpl in *;
    try discriminate; [reflexivity|].
  rewrite IH by lia. reflexivity.
Qed.

Lemma pending_in_batched (l : list Pair) (p : string) :
  In p (passage_batch (cell11 l)) -> In p (map snd (batched (cell11 l))).
Proof.
  intros H. destruct (Inv_cell11 l) as [_ Hpar _ _ _ _].
  unfold batched. rewrite map_app, map_snd_combine by exact Hpar.
  apply in_or_app. right. exact H.
Qed.

Lemma batched_snoc (l : list Pair) (query passage : string) :
  batched (cell11 (l ++ [(query, passage)])) =
  batched (cell11 l) ++
  (if contains (passage_batch (cell11 l)) passage then []
   else [(Py.str (List.length l), passage)]).
Proof.
  rewrite cell11_snoc. apply batched_step.
  destruct (Inv_cell11 l) as [_ Hpar _ _ _ _]. exact Hpar.
Qed.

(** X5: no id is given twice in a run: the ids of the records sent and of
    those still pending are pairwise distinct, so no upsert of the run
    overwrites the vector of another. *)
Theorem ids_are_distinct (l : list Pair) :
  NoDup (map fst (sent (cell11 l)) ++ id_batch (cell11 l)).
Proof.
  destruct (Inv_cell11 l) as [_ Hpar _ _ _ [recs [Hb [_ Hnd]]]].
  assert (E : map fst (sent (cell11 l)) ++ id_batch (cell11 l)
              = map fst (batched (cell11 l))).
  { unfold batched. rewrite map_app. f_equal.
    clear Hb. revert Hpar.
    generalize (id_batch (cell11 l)) (passage_batch (cell11 l)).
    induction l0 as [|a ids IH]; intros [|b ps] H; simpl in *;
      try discriminate; [reflexivity|].
    rewrite <- IH by lia. reflexivity. }
  rewrite E, Hb, map_map. cbn [fst].
  rewrite <- (map_map fst Py.str).
  apply Injective_map_NoDup; [|exact Hnd].
  intros i j. apply PyFacts.str_inj.
Qed.

Lemma add_passage_nodup (i : nat) (passage : string) (st : state) :
  NoDup (passage_batch st) -> NoDup (fst (add_passage i passage st)).
Proof.
  intros H. unfold add_passage.
  destruct (contains (passage_batch st) passage) eqn:E; cbn [fst]; [exact H|].
  apply NoDup_app; [exact H | |].
  - constructor; [intros [] | constructor].
  - intros a Ha [Eq|[]]. subst a.
    apply contains_In in Ha. congruence.
Qed.

Lemma upserts_step (i : nat) (query passage : string) (st : state) :
  upserts (step i (query, passage) st) =
  upserts st ++
  (if Nat.eqb (List.length (fst (add_passage i passage st))) batch_size
   then [mkFlush (snd (add_passage i passage st)) (fst (add_passage i passage st))]
   else []).
Proof.
  rewrite step_unfold. cbv zeta.
  destruct (Nat.eqb _ _); cbn [upserts]; [reflexivity|].
  rewrite app_nil_r. reflexivity.
Qed.

(** X6: within one flush no passage text occurs twice: what is sent to the
    encoder in one call is free of duplicates. *)
Theorem flush_has_no_duplicate (l : list Pair) :
  Forall (fun f => NoDup (flush_passages f)) (upserts (cell11 l)).
Proof.
  induction l as [|[query passage] l IH] using rev_ind; [constructor|].
  rewrite cell11_snoc, upserts_step.
  apply Forall_app. split; [exact IH|].
  destruct (Nat.eqb _ _); constructor; [|constructor].
  cbn [flush_passages]. apply add_passage_nodup.
  destruct (Inv_cell11 l) as [_ _ _ _ Hnd _]. exact Hnd.
Qed.

(** X7: every passage text of the input is batched: it is among the
    records sent or among those left pending at the end. *)
Theorem every_passage_is_batched (l : list Pair) :
  incl (map snd l) (map snd (batched (cell11 l))).
Proof.
  induction l as [|[query passage] l IH] using rev_ind; [intros p []|].
  intros p Hp. rewrite batched_snoc, map_app.
  rewrite map_app in Hp. apply in_app_or in Hp.
  apply in_or_app. destruct Hp as [Hp|[Hp|[]]].
  - left. apply IH. exact Hp.
  - cbn in Hp. subst p.
    destruct (contains (passage_batch (cell11 l)) passage) eqn:E.
    + left. apply pending_in_batched. apply contains_In. exact E.
    + right. left. reflexivity.
Qed.

Lemma sent_length (l : list Pair) :
  List.length (sent (cell11 l)) = 64 * List.length (upserts (cell11 l)).
Proof.
  destruct (Inv_cell11 l) as [_ _ _ Hfl _ _]. unfold sent.
  induction Hfl as [|f fs [H1 H2] _ IH]; [reflexivity|].
  cbn [flat_map List.length]. rewrite length_app, IH.
  unfold records. rewrite length_combine, H1, H2.
  unfold batch_size. lia.
Qed.

Lemma batched_length (l : list Pair) :
  List.length (batched (cell11 l)) =
  List.length (sent (cell11 l)) + List.length (passage_batch (cell11 l)).
Proof.
  destruct (Inv_cell11 l) as [_ Hpar _ _ _ _].
  unfold batched. rewrite length_app, length_combine, Hpar.
  rewrite Nat.min_id. reflexivity.
Qed.

(** X9: the records are sent 64 at a time, and never more records are
    batched than there are pairs: the number sent is 64 times the number
    of flushes, and sent and pending together are at most the pairs. *)
Theorem sent_in_batches_of_64 (l : list Pair) :
  List.length (sent (cell11 l)) = 64 * List.length (upserts (cell11 l)) /\
  List.length (sent (cell11 l)) + List.length (passage_batch (cell11 l))
    <= List.length l.
Proof.
  split; [apply sent_length|].
  rewrite <- batched_length.
  destruct (Inv_cell11 l) as [_ _ _ _ _ [recs [Hb [Hrec Hnd]]]].
  rewrite Hb, length_map, <- (length_map fst recs).
  rewrite <- (length_seq (List.length l) 0).
  apply NoDup_incl_length; [exact Hnd|].
  intros k Hk. apply in_map_iff in Hk. destruct Hk as [r [E Hr]]. subst k.
  rewrite Forall_forall in Hrec. destruct (Hrec r Hr) as [q Hq].
  apply in_seq. split; [lia|]. cbn.
  apply nth_error_Some. congruence.
Qed.

Lemma distinct_all_batched (l : list Pair) :
  NoDup (map snd l) -> map snd (batched (cell11 l)) = map snd l.
Proof.
  induction l as [|[query passage] l IH] using rev_ind; intros Hnd;
    [reflexivity|].
  rewrite map_app in Hnd. cbn [map snd] in Hnd.
  specialize (IH (NoDup_app_remove_r _ _ Hnd)).
  rewrite batched_snoc.
  destruct (contains (passage_batch (cell11 l)) passage) eqn:E.
  - exfalso. apply contains_In in E. apply pending_in_batched in E.
    rewrite IH in E.
    apply NoDup_remove_2 in Hnd. rewrite app_nil_r in Hnd. exact (Hnd E).
  - rewrite !map_app, IH. reflexivity.
Qed.

(** X8: when the passages of the input are pairwise distinct, every pair
    is batched in order, 64 * (N / 64) records are sent and the last
    N mod 64 are left pending, unsent. *)
Theorem distinct_passages_accounting (l : list Pair) :
  NoDup (map snd l) ->
  map snd (batched (cell11 l)) = map snd l /\
  List.length (sent (cell11 l)) = 64 * (List.length l / 64) /\
  List.length (passage_batch (cell11 l)) = List.length l mod 64.
Proof.
  intros Hnd. pose proof (distinct_all_batched l Hnd) as E.
  split; [exact E|].
  assert (Hlen : List.length (batched (cell11 l)) = List.length l).
  { rewrite <- (length_map snd), E. apply length_map. }
  rewrite batched_length, sent_length in Hlen.
  destruct (Inv_cell11 l) as [_ _ Hlt _ _ _]. unfold batch_size in Hlt.
  pose proof (Nat.div_mod_eq (List.length l) 64) as D.
  pose proof (Nat.mod_upper_bound (List.length l) 64 ltac:(lia)) as U.
  rewrite sent_length. lia.
Qed.

Lemma distinct_passages_accounting_witness :
  NoDup (map snd (stream passage_n 3)) /\
  List.length (passage_batch (cell11 (stream passage_n 3))) =
    List.length (stream passage_n 3) mod 64.
Proof.
  assert (H : NoDup (map snd (stream passage_n 3))).
  { vm_compute. repeat constructor; cbn; intuition discriminate. }
  split; [exact H|].
  apply (distinct_passages_accounting (stream passage_n 3) H).
Defined.

(** X10: what has been sent is never taken back: the flushes made on a
    prefix of the input are the first flushes made on the whole input. *)
Theorem flushes_only_grow (l more : list Pair) :
  exists later : list flush,
    upserts (cell11 (l ++ more)) = upserts (cell11 l) ++ later.
Proof.
  induction more as [|[query passage] more [later IH]] using rev_ind.
  - exists []. rewrite !app_nil_r. reflexivity.
  - rewrite app_assoc, cell11_snoc, upserts_step, IH.
    eexists. rewrite <- app_assoc. reflexivity.
Qed.

End UpsertLaws.

(** ** The mining pass *)

Module MiningLaws.

Import Py Mining MiningFacts.

(** X11: with no pairs the pass calls neither the encoder nor the index,
    emits nothing and writes an empty file. *)
Theorem mining_no_pairs {world vector : Type}
    (encode : list string -> world -> result (list vector * world))
    (index_query : list vector -> nat -> world -> result (list query_res * world))
    (shuffle : list hit -> world -> list hit * world)
    (fs : files) (w : world) :
  mining encode index_query shuffle [] w = Ok ([], w) /\
  cell13 encode index_query shuffle [] fs w =
    Ok (mkFiles (pairs_tsv fs) (Some EmptyString), w).
Proof. split; reflexivity. Qed.

Lemma getitem_out_of_range {A : Type} (l : list A) (k : nat) :
  List.length l <= k -> getitem l (Z.of_nat k) = Raise IndexError.
Proof.
  intros H. unfold getitem.
  destruct (Z.ltb_spec (Z.of_nat k) 0); [lia|].
  destruct (Z.ltb_spec (Z.of_nat k) (Z.of_nat (List.length l))); [lia|].
  rewrite andb_false_r. reflexivity.
Qed.

(** X12: a candidate whose id is the decimal string of a number past the
    end of [pairs] makes the scan raise an [IndexError] as soon as it is
    reached, that is when the candidates before it all carry the
    positive. *)
Theorem id_past_the_end_raises (pairs : list Pair) (query pos_passage : string)
    (same rest : list hit) (k : nat) (triplets : list string) :
  List.length pairs <= k ->
  Forall (fun c => neg_passage_of pairs c = Ok pos_passage) same ->
  neg_passage_of pairs (mkHit (str k)) = Raise IndexError /\
  find_negative pairs query pos_passage (same ++ mkHit (str k) :: rest) triplets
    = Raise IndexError.
Proof.
  intros Hk Hsame.
  assert (E : neg_passage_of pairs (mkHit (str k)) = Raise IndexError).
  { unfold neg_passage_of. cbn [hit_id].
    rewrite PyFacts.int_str, getitem_out_of_range by exact Hk. reflexivity. }
  split; [exact E|].
  rewrite find_negative_skip by exact Hsame.
  cbn [find_negative]. rewrite E. reflexivity.
Qed.

Lemma id_past_the_end_raises_witness :
  find_negative demo_pairs "what is a dog" "A dog is a domesticated canine."
    ([mkHit "1"] ++ mkHit (str 2) :: [mkHit "0"]) [] = Raise IndexError.
Proof.
  apply (id_past_the_end_raises demo_pairs "what is a dog"
           "A dog is a domesticated canine." [mkHit "1"] [mkHit "0"] 2 []).
  - cbn. lia.
  - constructor; [reflexivity | constructor].
Defined.

(** X13: an id with a minus sign is not refused: for [1 <= k <= len(pairs)]
    the id ["-k"] reads the pair [k] places from the end. *)
Theorem negative_id_counts_from_the_end (pairs : list Pair) (k : nat) :
  1 <= k <= List.length pairs ->
  exists pr : Pair,
    nth_error pairs (List.length pairs - k) = Some pr /\
    neg_passage_of pairs (mkHit (String "-"%char (str k))) = Ok (snd pr).
Proof.
  intros Hk.
  destruct (nth_error pairs (List.length pairs - k)) as [pr|] eqn:E.
  - exists pr. split; [reflexivity|].
    unfold neg_passage_of. cbn [hit_id].
    assert (Ei : int (String "-"%char (str k)) = Ok (- Z.of_nat k)%Z).
    { cbn. rewrite PyFacts.str_digits. reflexivity. }
    rewrite Ei. unfold getitem.
    destruct (Z.ltb_spec (- Z.of_nat k) 0); [|lia].
    destruct (Z.leb_spec 0 (- Z.of_nat k + Z.of_nat (List.length pairs))); [|lia].
    destruct (Z.ltb_spec (- Z.of_nat k + Z.of_nat (List.length pairs))
                         (Z.of_nat (List.length pairs))); [|lia].
    cbn [andb].
    replace (Z.to_nat (- Z.of_nat k + Z.of_nat (List.length pairs)))
      with (List.length pairs - k) by lia.
    rewrite E. reflexivity.
  - exfalso. apply nth_error_None in E. lia.
Qed.

Lemma negative_id_counts_from_the_end_witness :
  exists pr : Pair,
    nth_error demo_pairs (List.length demo_pairs - 1) = Some pr /\
    neg_passage_of demo_pairs (mkHit (String "-"%char (str 1))) = Ok (snd pr).
Proof.
  apply (negative_id_counts_from_the_end demo_pairs 1). cbn. lia.
Defined.

Lemma find_negative_source (pairs : list Pair) (query pos_passage : string)
    (top_results : list hit) (triplets triplets' : list string) :
  find_negative pairs query pos_passage top_results triplets = Ok triplets' ->
  triplets' = triplets \/
  exists (h : hit) (neg_passage : string),
    In h top_results /\
    neg_passage_of pairs h = Ok neg_passage /\
    neg_passage <> pos_passage /\
    triplets' = triplets ++ [triplet query pos_passage neg_passage].
Proof.
  induction top_results as [|h rest IH]; simpl; intros H.
  - left. inversion H. reflexivity.
  - destruct (neg_passage_of pairs h) as [neg|] eqn:E; [|discriminate].
    destruct (String.eqb neg pos_passage) eqn:Eq.
    + destruct (IH H) as [Hl|[h' [n [Hin Hr]]]]; [left; exact Hl|].
      right. exists h', n. split; [right; exact Hin | exact Hr].
    + right. exists h, neg. inversion H; subst.
      repeat split; [left; reflexivity | exact E | apply String.eqb_neq; exact Eq].
Qed.

(** X14: when the shuffle permutes the matches, a query that gets a line
    gets as negative the passage of one of the matches the index returned
    for it. *)
Theorem negative_is_one_of_the_matches {world : Type}
    (shuffle : list hit -> world -> list hit * world)
    (pairs : list Pair) (query pos_passage : string) (qr : query_res)
    (triplets triplets' : list string) (w w' : world) :
  Permutation (fst (shuffle (matches qr) w)) (matches qr) ->
  mine_query shuffle pairs query pos_passage qr triplets w = Ok (triplets', w') ->
  triplets' = triplets \/
  exists (h : hit) (neg_passage : string),
    In h (matches qr) /\
    neg_passage_of pairs h = Ok neg_passage /\
    neg_passage <> pos_passage /\
    triplets' = triplets ++ [triplet query pos_passage neg_passage].
Proof.
  intros Hperm H. rewrite mine_query_unfold in H.
  destruct (find_negative _ _ _ _ _) as [t|] eqn:E; [|discriminate].
  inversion H; subst. apply find_negative_source in E.
  destruct E as [E|[h [n [Hin Hr]]]]; [left; exact E|].
  right. exists h, n. split; [|exact Hr].
  eapply Permutation_in; eassumption.
Qed.

Lemma negative_is_one_of_the_matches_witness :
  [triplet "what is a dog" "A dog is a domesticated canine."
           "A cat is a small mammal."] = [] \/
  exists (h : hit) (neg_passage : string),
    In h [mkHit "0"; mkHit "1"] /\
    neg_passage_of demo_pairs h = Ok neg_passage /\
    neg_passage <> "A dog is a domesticated canine." /\
    [triplet "what is a dog" "A dog is a domesticated canine."
             "A cat is a small mammal."] =
      [] ++ [triplet "what is a dog" "A dog is a domesticated canine."
                     neg_passage].
Proof.
  apply (negative_is_one_of_the_matches demo_shuffle demo_pairs "what is a dog"
           "A dog is a domesticated canine."
           (mkQueryRes [mkHit "0"; mkHit "1"]) [] _ tt tt).
  - cbn. apply Permutation_sym, Permutation_rev.
  - reflexivity.
Defined.

Lemma sent_id_lookup (l : list Pair) (id : string) :
  In id (map fst (Upsert.sent (Upsert.cell11 l))) ->
  exists passage : string,
    In (id, passage) (Upsert.sent (Upsert.cell11 l)) /\
    neg_passage_of (Upsert.pairs (Upsert.cell11 l)) (mkHit id) = Ok passage.
Proof.
  intros Hin. apply in_map_iff in Hin. destruct Hin as [[id' p] [E Hin]].
  cbn in E. subst id'. exists p. split; [exact Hin|].
  destruct (UpsertFacts.Inv_cell11 l) as [Hp _ _ _ _ [recs [Hb [Hrec _]]]].
  assert (Hin' : In (id, p) (Upsert.batched (Upsert.cell11 l)))
    by (unfold Upsert.batched; apply in_or_app; left; exact Hin).
  rewrite Hb in Hin'. apply in_map_iff in Hin'.
  destruct Hin' as [[i p'] [E Hr]]. cbn in E. inversion E; subst.
  rewrite Forall_forall in Hrec. destruct (Hrec _ Hr) as [q Hq]. cbn in Hq.
  unfold neg_passage_of. cbn [hit_id].
  rewrite Hp, PyFacts.int_str, (PyFacts.getitem_nat _ _ _ Hq). reflexivity.
Qed.

(** X15: the two cells fit: on the [pairs] that cell 11 leaves, the scan of
    candidates whose ids cell 11 sent to the index raises nothing. *)
Theorem scan_of_sent_ids_succeeds (l : list Pair) (query pos_passage : string)
    (top_results : list hit) (triplets : list string) :
  Forall (fun h => In (hit_id h) (map fst (Upsert.sent (Upsert.cell11 l))))
         top_results ->
  exists triplets' : list string,
    find_negative (Upsert.pairs (Upsert.cell11 l)) query pos_passage
      top_results triplets = Ok triplets'.
Proof.
  intros H. apply find_negative_no_error.
  eapply Forall_impl; [|exact H].
  intros [id] Hin. cbn [hit_id] in Hin.
  destruct (sent_id_lookup l id Hin) as [p [_ Hp]]. exists p. exact Hp.
Qed.

Lemma scan_of_sent_ids_succeeds_witness :
  exists triplets' : list string,
    find_negative (Upsert.pairs (Upsert.cell11 (Upsert.stream Upsert.passage_n 64)))
      "q0" "p0" [mkHit "0"; mkHit "1"] [] = Ok triplets'.
Proof.
  apply (scan_of_sent_ids_succeeds (Upsert.stream Upsert.passage_n 64)
           "q0" "p0" [mkHit "0"; mkHit "1"] []).
  constructor; [vm_compute; left; reflexivity|].
  constructor; [vm_compute; right; left; reflexivity | constructor].
Defined.

Lemma first_start (n : nat) :
  0 < n -> exists rest, range_step n batch_size = 0 :: rest.
Proof.
  intros Hn. rewrite range_step_starts.
  pose proof (batch_count n) as [H _]. unfold batch_size in H.
  change (100 - 1) with 99 in H.
  destruct ((n + 99) / 100) as [|c]; [cbn in H; lia|].
  eexists. reflexivity.
Qed.

(** X16: a remote failure on the first batch ends the cell with that
    exception: no lines are returned and no file is written. *)
Theorem remote_failure_aborts {world vector : Type}
    (encode : list string -> world -> result (list vector * world))
    (index_query : list vector -> nat -> world -> result (list query_res * world))
    (shuffle : list hit -> world -> list hit * world)
    (pairs : list Pair) (fs : files) (w : world) (e : exn) :
  pairs <> [] ->
  (encode (map fst (firstn 100 pairs)) w = Raise e \/
   exists query_embs w1,
     encode (map fst (firstn 100 pairs)) w = Ok (query_embs, w1) /\
     index_query query_embs 10 w1 = Raise e) ->
  mining encode index_query shuffle pairs w = Raise e /\
  cell13 encode index_query shuffle pairs fs w = Raise e.
Proof.
  intros Hne Hfail.
  assert (Hm : mining encode index_query shuffle pairs w = Raise e).
  { unfold mining.
    destruct (first_start (List.length pairs)) as [rest E].
    { destruct pairs; [congruence | cbn; lia]. }
    rewrite E. cbn [mine_batches]. unfold bind at 1.
    rewrite mine_batch_chunk. cbn zeta. cbn [skipn].
    destruct Hfail as [H|[embs [w1 [H1 H2]]]].
    - rewrite H. reflexivity.
    - rewrite H1, H2. reflexivity. }
  split; [exact Hm|].
  unfold cell13, bind. rewrite Hm. reflexivity.
Qed.

Lemma remote_failure_aborts_witness :
  cell13 (fun (_ : list string) (_ : unit) => @Raise (list nat * unit) RemoteError)
    (demo_index_query ["0"; "1"]) demo_shuffle demo_pairs (mkFiles "" None) tt
  = Raise RemoteError.
Proof.
  apply (remote_failure_aborts
           (fun (_ : list string) (_ : unit) => @Raise (list nat * unit) RemoteError)
           (demo_index_query ["0"; "1"]) demo_shuffle demo_pairs
           (mkFiles "" None) tt RemoteError).
  - discriminate.
  - left. reflexivity.
Defined.



End MiningLaws.

(** ** The settings *)

Module ConfigLaws.

Import Config.

Lemma or_else_spec (x : option string) (d : string) :
  d <> EmptyString ->
  or_else x d <> EmptyString /\
  (forall v, x = Some v -> v <> EmptyString -> or_else x d = v) /\
  (x = None \/ x = Some EmptyString -> or_else x d = d).
Proof.
  intros Hd. destruct x as [[|c s]|]; cbn;
    (split; [first [exact Hd | discriminate] | split]).
  - intros v E Hv. inversion E. congruence.
  - reflexivity.
  - intros v E _. inversion E. reflexivity.
  - intros [H|H]; discriminate H.
  - intros v E. discriminate E.
  - reflexivity.
Qed.

(** X18: the settings are never empty: a variable that is set to a
    non-empty value is used as it is, an unset one and one set to the
    empty string both give the default. *)
Theorem settings_fall_back (env : environ) :
  (api_key env <> EmptyString /\ cloud env <> EmptyString /\
   region env <> EmptyString) /\
  (forall v, v <> EmptyString ->
     (environ_get env "PINECONE_API_KEY" = Some v -> api_key env = v) /\
     (environ_get env "PINECONE_CLOUD" = Some v -> cloud env = v) /\
     (environ_get env "PINECONE_REGION" = Some v -> region env = v)) /\
  (environ_get env "PINECONE_CLOUD" = None \/
   environ_get env "PINECONE_CLOUD" = Some EmptyString -> cloud env = "aws") /\
  (environ_get env "PINECONE_REGION" = None \/
   environ_get env "PINECONE_REGION" = Some EmptyString ->
   region env = "us-east-1").
Proof.
  unfold api_key, cloud, region.
  assert (H1 : "PINECONE_API_KEY" <> EmptyString) by discriminate.
  assert (H2 : "aws" <> EmptyString) by discriminate.
  assert (H3 : "us-east-1" <> EmptyString) by discriminate.
  destruct (or_else_spec (environ_get env "PINECONE_API_KEY") _ H1) as [A1 [A2 _]].
  destruct (or_else_spec (environ_get env "PINECONE_CLOUD") _ H2) as [B1 [B2 B3]].
  destruct (or_else_spec (environ_get env "PINECONE_REGION") _ H3) as [C1 [C2 C3]].
  repeat split; auto.
Qed.

End ConfigLaws.
